(** * JaxStreams: potentials, orbit integration and particle-spray streams

    A shallow embedding of [JaxStreams_diffrax_refactored.py] and of the
    phase-space-position indexing helper [galax/coordinates/_src/psps/utils.py].

    Numbers are IEEE binary64 values (the source enables [jax_enable_x64]),
    carried by Rocq's primitive floats, so that every definition below
    evaluates.  Arrays are lists of floats; a two-dimensional array is a list
    of rows.  What the source obtains from other libraries (automatic
    differentiation, the pseudo-random generator, the adaptive ODE solver,
    [x ** y] for a positive base) is collected in one record, [Backend], over
    which every definition is parametric. *)

From Stdlib Require Import String Ascii DecimalString.
From Stdlib Require Import Floats Uint63 ZArith List Bool Lia.
Import ListNotations.

Set Warnings "-inexact-float,-register-all".
Local Open Scope float_scope.

(** ** Array primitives ([jax.numpy]) *)

Module Jnp.

Definition array := list float.

Fixpoint map2 {A B C} (f : A -> B -> C) (a : list A) (b : list B) : list C :=
  match a, b with
  | x :: a', y :: b' => f x y :: map2 f a' b'
  | _, _ => []
  end.

(** NumPy broadcasting of a binary operation over one-dimensional arrays: a
    one-element operand is stretched along the other one. *)
Definition broadcast (op : float -> float -> float) (a b : array) : array :=
  match a, b with
  | [x], _ => map (op x) b
  | _, [y] => map (fun x => op x y) a
  | _, _ => map2 op a b
  end.

Definition add : array -> array -> array := broadcast PrimFloat.add.
Definition sub : array -> array -> array := broadcast PrimFloat.sub.
Definition mul : array -> array -> array := broadcast PrimFloat.mul.

(** Operations between an array and a scalar. *)
Definition muls (a : array) (s : float) : array := map (fun x => x * s) a.
Definition smul (s : float) (a : array) : array := map (fun x => s * x) a.
Definition divs (a : array) (s : float) : array := map (fun x => x / s) a.
Definition neg (a : array) : array := map PrimFloat.opp a.

(** [jnp.sum]: the reduction starts from [0.0] and runs left to right. *)
Definition sum (a : array) : float := fold_left PrimFloat.add a 0.

(** [x ** 2] with a Python integer exponent is [lax.integer_pow]. *)
Definition square (x : float) : float := x * x.

(** [jnp.linalg.norm] of a vector. *)
Definition norm (a : array) : float := PrimFloat.sqrt (sum (map square a)).

(** Indexing [a[i]].  A negative index counts from the end; an index out of
    range is clamped, as JAX does for reads.  [d] is returned only for an
    empty array, where JAX raises. *)
Definition getitem {A} (d : A) (a : list A) (i : Z) : A :=
  let n := Z.of_nat (length a) in
  let j := if (i <? 0)%Z then (i + n)%Z else i in
  nth (Z.to_nat (Z.min (Z.max j 0) (n - 1))) a d.

Definition item (a : array) (i : Z) : float := getitem 0 a i.
Definition row (a : list array) (i : Z) : array := getitem [] a i.

(** [jnp.cross] of two 3-vectors. *)
Definition cross (a b : array) : array :=
  [ item a 1 * item b 2 - item a 2 * item b 1;
    item a 2 * item b 0 - item a 0 * item b 2;
    item a 0 * item b 1 - item a 1 * item b 0 ].

Definition hstack (a b : array) : array := a ++ b.

(** [jnp.min] and [jnp.max] propagate NaN and raise on an empty array. *)
Definition fmin (a b : float) : float :=
  if PrimFloat.is_nan a then a else if PrimFloat.is_nan b then b
  else if b <? a then b else a.
Definition fmax (a b : float) : float :=
  if PrimFloat.is_nan a then a else if PrimFloat.is_nan b then b
  else if a <? b then b else a.
Definition min (a : array) : option float :=
  match a with [] => None | x :: a' => Some (fold_left fmin a' x) end.
Definition max (a : array) : option float :=
  match a with [] => None | x :: a' => Some (fold_left fmax a' x) end.

(** [jax.lax.scan]: thread a carry through [xs], stacking the outputs. *)
Fixpoint scan {C X Y} (f : C -> X -> C * Y) (init : C) (xs : list X)
  : C * list Y :=
  match xs with
  | [] => (init, [])
  | x :: xs' =>
      let (c, y) := f init x in
      let (c', ys) := scan f c xs' in
      (c', y :: ys)
  end.

(** The carries a scan passes to its successive iterations. *)
Fixpoint scan_carries {C X Y} (f : C -> X -> C * Y) (init : C) (xs : list X)
  : list C :=
  match xs with
  | [] => []
  | x :: xs' => init :: scan_carries f (fst (f init x)) xs'
  end.


End Jnp.

Import Jnp.

(** ** What other libraries provide *)

(** diffrax's [SaveAt(t0, t1, ts, dense)]. *)
Record SaveAt := mkSaveAt {
  sa_t0 : bool;
  sa_t1 : bool;
  sa_ts : option array;
  sa_dense : bool
}.

Record Backend := mkBackend {
  (** [jax.grad f x] for a scalar function of one array. *)
  jax_grad : (array -> float) -> array -> array;
  (** [x ** (1.0 / 3.0)] for a finite base [x > 0]. *)
  pow_third_pos : float -> float;
  (** [jax.random]: keys, [PRNGKey], [randint key (n,) minval maxval], and
      the one sample that [normal key (1,)] holds (an array of shape [(1,)]
      broadcasts against a vector as that sample does). *)
  Key : Type;
  PRNGKey : Z -> Key;
  randint : Key -> nat -> Z -> Z -> list Z;
  normal : Key -> float;
  (** The state that [Dopri5] under the PID controller ([rtol], [atol])
      saves for a time [t] of the save grid while solving [y' = f t y] from
      [(t0, y0)] to [t1] (it interpolates inside the step that covers [t]):
      [ode_state f rtol atol y0 t0 t1 t]. *)
  ode_state : (float -> array -> array) -> float -> float ->
              array -> float -> float -> float -> array;
  (** The state the same solve ends in at [t1], which is what [t1=True]
      saves: [ode_final f rtol atol y0 t0 t1].  It is not obtained by
      interpolation and need not equal the state saved for a grid time equal
      to [t1]. *)
  ode_final : (float -> array -> array) -> float -> float ->
              array -> float -> float -> array
}.

(** [any(ts[1:] < ts[:-1])] *)
Fixpoint decreases_somewhere (ts : array) : bool :=
  match ts with
  | a :: (b :: _) as rest => (b <? a) || decreases_somewhere rest
  | _ => false
  end.

(** The two checks diffrax runs on a save grid, after it has multiplied all
    times by the direction of integration: it raises "saveat.ts must be
    increasing or decreasing" when an entry is smaller than its predecessor,
    and "saveat.ts must lie between t0 and t1" when an entry is outside the
    interval of integration. *)
Definition saveat_ts_accepted (t0 t1 : float) (ts : array) : bool :=
  let direction := if t0 <? t1 then 1 else - 1 in
  let t0 := t0 * direction in
  let t1 := t1 * direction in
  let ts := map (fun t => t * direction) ts in
  negb (decreases_somewhere ts)
  && negb (existsb (fun t => (t1 <? t) || (t <? t0)) ts).

(** [diffeqsolve(...).ys].  [None] stands for the error diffrax raises on a
    save grid it rejects.  The saved states are stored in this order: the
    initial state when [t0] is set, then one state per time of [ts], then the
    final state when [t1] is set. *)
Definition diffeqsolve (B : Backend) (f : float -> array -> array)
    (rtol atol t0 t1 : float) (y0 : array) (saveat : SaveAt)
    : option (list array) :=
  let accepted :=
    match sa_ts saveat with
    | Some ts => saveat_ts_accepted t0 t1 ts
    | None => true
    end in
  if accepted then
    Some ((if sa_t0 saveat then [y0] else [])
          ++ match sa_ts saveat with
             | Some ts => map (ode_state B f rtol atol y0 t0 t1) ts
             | None => []
             end
          ++ (if sa_t1 saveat then [ode_final B f rtol atol y0 t0 t1] else []))
  else None.

(** [x ** (1.0 / 3.0)]: NaN for NaN and for a negative finite base (a
    non-integer exponent), [+inf] for both infinities, [0] at zero. *)
Definition pow_third (B : Backend) (x : float) : float :=
  if PrimFloat.is_nan x then nan
  else if x <? 0 then (if x =? neg_infinity then infinity else nan)
  else if x =? 0 then 0
  else if x =? infinity then infinity
  else pow_third_pos B x.

(** ** class Potential *)

Record Potential := mkPotential {
  _G : float;
  potential : array -> float -> float
}.

Section PotentialMethods.

Variable B : Backend.
Variable self : Potential.

Definition gradient (xyz : array) (t : float) : array :=
  jax_grad B (fun q => potential self q t) xyz.

Definition acceleration (xyz : array) (t : float) : array :=
  neg (gradient xyz t).

Definition d2phidr2_mw (x : array) (t : float) : float :=
  let rad := norm x in
  let r_hat := divs x rad in
  let dphi_dr_func := fun x => sum (mul (gradient x t) r_hat) in
  sum (mul (jax_grad B dphi_dr_func x) r_hat).

Definition omega (x v : array) : float :=
  let rad := PrimFloat.sqrt (square (item x 0) + square (item x 1) + square (item x 2)) in
  let omega_vec := divs (cross x v) (square rad) in
  norm omega_vec.

(** The quantity whose cube root is the tidal radius. *)
Definition tidal_radicand (x v : array) (Msat t : float) : float :=
  _G self * Msat / (square (omega x v) - d2phidr2_mw x t).

Definition tidalr_mw (x v : array) (Msat t : float) : float :=
  pow_third B (tidal_radicand x v Msat t).

Definition lagrange_pts (x v : array) (Msat t : float) : array * array :=
  let r_tidal := tidalr_mw x v Msat t in
  let r_hat := divs x (norm x) in
  let L_close := sub x (muls r_hat r_tidal) in
  let L_far := add x (muls r_hat r_tidal) in
  (L_close, L_far).

Definition velocity_acceleration (t : float) (xv : array) : array :=
  let x := firstn 3 xv in
  let v := skipn 3 xv in
  let acceleration := neg (gradient x t) in
  hstack v acceleration.

(** [None] stands for the error of a rejected save grid. *)
Definition orbit_integrator_run (w0 : array) (t0 t1 : float)
    (ts : option array) : option (list array) :=
  let saveat := mkSaveAt false true ts false in
  let rtol := 1e-7 in
  let atol := 1e-7 in
  diffeqsolve B velocity_acceleration rtol atol t0 t1 w0 saveat.

(** The rows of a solve that returned.  The stream generators index the
    result of a solve without a save grid, which is never rejected. *)
Definition rows (ys : option (list array)) : list array :=
  match ys with Some ys => ys | None => [] end.

(** Integers are 64-bit ([jax_enable_x64]); a product wraps around. *)
Definition wrap64 (z : Z) : Z :=
  ((z + 2 ^ 63) mod 2 ^ 64 - 2 ^ 63)%Z.

(** The five sub-keys of a release event:
    [PRNGKey(i * random_ints[k])] for [k = 0 .. 4], where [random_ints] are
    drawn from the master key [PRNGKey(seed_num)]. *)
Definition release_keys (i seed_num : Z) : list (Key B) :=
  let key_master := PRNGKey B seed_num in
  let random_ints := randint B key_master 5 0 1000 in
  let keya := PRNGKey B (wrap64 (i * nth 0 random_ints 0%Z)) in
  let keyb := PRNGKey B (wrap64 (i * nth 1 random_ints 0%Z)) in
  let keyc := PRNGKey B (wrap64 (i * nth 2 random_ints 0%Z)) in
  let keyd := PRNGKey B (wrap64 (i * nth 3 random_ints 0%Z)) in
  let keye := PRNGKey B (wrap64 (i * nth 4 random_ints 0%Z)) in
  [keya; keyb; keyc; keyd; keye].

(** The body of [release_model] once the sub-keys are known. *)
Definition release_from_keys (keys : list (Key B)) (x v : array)
    (Msat t : float) : array * array * array * array :=
  let keya := nth 0 keys (PRNGKey B 0) in
  let keyb := nth 1 keys (PRNGKey B 0) in
  let keyc := nth 2 keys (PRNGKey B 0) in
  let keyd := nth 3 keys (PRNGKey B 0) in
  let keye := nth 4 keys (PRNGKey B 0) in
  let '(L_close, L_far) := lagrange_pts x v Msat t in
  let omega_val := omega x v in
  let r := norm x in
  let r_hat := divs x r in
  let r_tidal := tidalr_mw x v Msat t in
  let rel_v := omega_val * r_tidal in
  let dphi_dr := sum (mul (gradient x t) r_hat) in
  let v_circ := rel_v in
  let L_vec := cross x v in
  let z_hat := divs L_vec (norm L_vec) in
  let phi_vec := sub v (smul (sum (mul v r_hat)) r_hat) in
  let phi_hat := divs phi_vec (norm phi_vec) in
  let vt_sat := sum (mul v phi_hat) in
  let kr_bar := 2.0 in
  let kvphi_bar := 0.3 in
  let kz_bar := 0.0 in
  let kvz_bar := 0.0 in
  let sigma_kr := 0.5 in
  let sigma_kvphi := 0.5 in
  let sigma_kz := 0.5 in
  let sigma_kvz := 0.5 in
  let kr_samp := kr_bar + normal B keya * sigma_kr in
  let kvphi_samp := kr_samp * (kvphi_bar + normal B keyb * sigma_kvphi) in
  let kz_samp := kz_bar + normal B keyc * sigma_kz in
  let kvz_samp := kvz_bar + normal B keyd * sigma_kvz in
  (* trailing arm *)
  let pos_trail := add x (muls (smul kr_samp r_hat) r_tidal) in
  let pos_trail := add pos_trail (muls (muls z_hat kz_samp) (r_tidal / 1.0)) in
  let v_trail := add v (smul (0.0 + kvphi_samp * v_circ * 1.0) phi_hat) in
  let v_trail := add v_trail (smul (kvz_samp * v_circ * 1.0) z_hat) in
  (* leading arm *)
  let pos_lead := add x (muls (smul kr_samp r_hat) (- r_tidal)) in
  let pos_lead := add pos_lead (muls (muls z_hat kz_samp) (- r_tidal / 1.0)) in
  let v_lead := add v (smul (0.0 + kvphi_samp * v_circ * (- 1.0)) phi_hat) in
  let v_lead := add v_lead (smul (kvz_samp * v_circ * (- 1.0)) z_hat) in
  (pos_lead, pos_trail, v_lead, v_trail).

Definition release_model (x v : array) (Msat : float) (i : Z) (t : float)
    (seed_num : Z) : array * array * array * array :=
  release_from_keys (release_keys i seed_num) x v Msat t.

(** The tuple a release yields, and the four stacked output arrays. *)
Definition ics := (array * array * array * array)%type.
Definition ics_arrays :=
  (list array * list array * list array * list array)%type.

Definition unstack (all_states : list ics) : ics_arrays :=
  (map (fun s : ics => fst (fst (fst s))) all_states,
   map (fun s : ics => snd (fst (fst s))) all_states,
   map (fun s : ics => snd (fst s)) all_states,
   map (fun s : ics => snd s) all_states).

(** One iteration of the scan of [gen_stream_ics]. *)
Definition ics_scan_fun (ws_jax : list array) (Msat : float) (seed_num : Z)
    (carry : Z * ics) (t : float) : (Z * ics) * ics :=
  let '(i, _) := carry in
  let new := release_model (firstn 3 (row ws_jax i)) (skipn 3 (row ws_jax i))
               Msat i t seed_num in
  ((i + 1, new)%Z, new).

(** [None] stands for an exception: the one [jnp.min] raises on an empty
    grid, or the one of the orbit integrator on a grid it rejects. *)
Definition gen_stream_ics (ts : array) (prog_w0 : array) (Msat : float)
    (seed_num : Z) : option ics_arrays :=
  match Jnp.min ts, Jnp.max ts with
  | Some tmin, Some tmax =>
      match orbit_integrator_run prog_w0 tmin tmax (Some ts) with
      | Some ws_jax =>
          let zeros := [0.0; 0.0; 0.0] in
          let init_carry := (0%Z, (zeros, zeros, zeros, zeros)) in
          let '(final_state, all_states) :=
            scan (ics_scan_fun ws_jax Msat seed_num) init_carry (skipn 1 ts) in
          Some (unstack all_states)
      | None => None
      end
  | _, _ => None
  end.

(** Row [i] of each of the four arrays. *)
Definition ics_row (arrs : ics_arrays) (i : Z) : ics :=
  let '(pos_close_arr, pos_far_arr, vel_close_arr, vel_far_arr) := arrs in
  (row pos_close_arr i, row pos_far_arr i, row vel_close_arr i, row vel_far_arr i).

Definition arange (n : nat) : list Z := map Z.of_nat (seq 0 n).

(** One iteration of the scan of [gen_stream_scan]. *)
Definition stream_scan_fun (ts : array) (arrs : ics_arrays)
    (carry : Z * ics) (particle_idx : Z) : (Z * ics) * (array * array) :=
  let '(i, (pos_close_curr, pos_far_curr, vel_close_curr, vel_far_curr)) := carry in
  let curr_particle_w0_close := hstack pos_close_curr vel_close_curr in
  let curr_particle_w0_far := hstack pos_far_curr vel_far_curr in
  let w0_lead_trail := [curr_particle_w0_close; curr_particle_w0_far] in
  let minval := item ts i in
  let maxval := item ts (-1) in
  let integrate_different_ics :=
    fun ics => row (rows (orbit_integrator_run ics minval maxval None)) 0 in
  let out := map integrate_different_ics w0_lead_trail in
  let w_particle_close := row out 0 in
  let w_particle_far := row out 1 in
  ((i + 1, ics_row arrs (i + 1))%Z, (w_particle_close, w_particle_far)).

(** [None] stands for an exception: the one of [gen_stream_ics], or the
    [IndexError] of [pos_close_arr[0,:]] on an array with no row. *)
Definition gen_stream_scan (ts : array) (prog_w0 : array) (Msat : float)
    (seed_num : Z) : option (list array * list array) :=
  match gen_stream_ics ts prog_w0 Msat seed_num with
  | None => None
  | Some arrs =>
      let '(pos_close_arr, _, _, _) := arrs in
      match pos_close_arr with
      | [] => None
      | _ :: _ =>
          let init_carry := (0%Z, ics_row arrs 0) in
          let particle_ids := arange (length pos_close_arr) in
          let '(final_state, all_states) :=
            scan (stream_scan_fun ts arrs) init_carry particle_ids in
          Some (map fst all_states, map snd all_states)
      end
  end.

Definition single_particle_integrate (ts : array) (particle_number : Z)
    (pos_close_curr pos_far_curr vel_close_curr vel_far_curr : array)
    : array * array :=
  let curr_particle_w0_close := hstack pos_close_curr vel_close_curr in
  let curr_particle_w0_far := hstack pos_far_curr vel_far_curr in
  let t_release := item ts particle_number in
  let t_final := item ts (-1) + 0.01 in
  let w_particle_close :=
    row (rows (orbit_integrator_run curr_particle_w0_close t_release t_final None)) 0 in
  let w_particle_far :=
    row (rows (orbit_integrator_run curr_particle_w0_far t_release t_final None)) 0 in
  (w_particle_close, w_particle_far).

(** [jax.vmap] with [in_axes = (0, 0, 0, 0, 0)]. *)
Fixpoint vmap5 {A1 A2 A3 A4 A5 R} (f : A1 -> A2 -> A3 -> A4 -> A5 -> R)
    (l1 : list A1) (l2 : list A2) (l3 : list A3) (l4 : list A4) (l5 : list A5)
    : list R :=
  match l1, l2, l3, l4, l5 with
  | a1 :: l1', a2 :: l2', a3 :: l3', a4 :: l4', a5 :: l5' =>
      f a1 a2 a3 a4 a5 :: vmap5 f l1' l2' l3' l4' l5'
  | _, _, _, _, _ => []
  end.

(** [None] stands for an exception: the one of [gen_stream_ics], or the
    [ValueError] raised when there is no particle to map over. *)
Definition gen_stream_vmapped (ts : array) (prog_w0 : array) (Msat : float)
    (seed_num : Z) : option (list array * list array) :=
  match gen_stream_ics ts prog_w0 Msat seed_num with
  | None => None
  | Some arrs =>
      let '(pos_close_arr, pos_far_arr, vel_close_arr, vel_far_arr) := arrs in
      match pos_close_arr with
      | [] => None
      | _ :: _ =>
          let particle_ids := arange (length pos_close_arr) in
          let out := vmap5 (single_particle_integrate ts) particle_ids
                       pos_close_arr pos_far_arr vel_close_arr vel_far_arr in
          Some (map fst out, map snd out)
      end
  end.

(** *** Reference descriptions of the stream generator *)

(** Whether the orbit integrator accepts the grid of [gen_stream_ics], which
    it solves from [min(ts)] to [max(ts)] with [ts] as the save grid. *)
Definition grid_accepted (ts : array) : bool :=
  match Jnp.min ts, Jnp.max ts with
  | Some tmin, Some tmax => saveat_ts_accepted tmin tmax ts
  | _, _ => false
  end.

(** The state of the progenitor at the grid time [t], as saved by the one
    solve of [gen_stream_ics] over the whole grid. *)
Definition progenitor_state (prog_w0 : array) (tmin tmax t : float) : array :=
  ode_state B velocity_acceleration 1e-7 1e-7 prog_w0 tmin tmax t.

(** The single state that the orbit integrator saves at [t1] when no save
    grid is given. *)
Definition final_state (w0 : array) (t0 t1 : float) : array :=
  ode_final B velocity_acceleration 1e-7 1e-7 w0 t0 t1.



End PotentialMethods.

(** ** Concrete potentials *)

Definition Isochrone (G m a : float) : Potential :=
  mkPotential G (fun xyz t =>
    let r := norm xyz in
    (- G) * m / (a + PrimFloat.sqrt (square r + square a))).

Definition MiyamotoNagaiDisk (G m a b : float) : Potential :=
  mkPotential G (fun xyz t =>
    let R2 := square (item xyz 0) + square (item xyz 1) in
    (- G) * m /
      PrimFloat.sqrt (R2 + square (PrimFloat.sqrt (square (item xyz 2) + square b) + a))).

(** [Isochrone_centered]: an isochrone that follows a moving centre, over an
    always-on background isochrone.  [spline_eval_func] and [splines] are
    constructor arguments; the background is built with the same units, hence
    the same [G].  [jax.lax.cond] selects between [true_func] and
    [false_func] on the stacked operand [xyz_t]. *)
Definition Isochrone_centered {S : Type} (G m a : float)
    (spline_eval_func : float -> S -> array) (splines : S)
    (t_min t_max m_ext a_ext : float) : Potential :=
  mkPotential G (fun xyz t =>
    let is_cond_met := (t_min <? t) && (t <? t_max) in
    let pot_ext := Isochrone G m_ext a_ext in
    let true_func := fun xyz_t : array =>
      let xyz_ := firstn 3 xyz_t in
      let t := item xyz_t (-1) in
      let xyz := sub xyz_ (spline_eval_func t splines) in
      let r := norm xyz in
      (- G) * m / (a + PrimFloat.sqrt (square r + square a))
      + potential pot_ext xyz_ t in
    let false_func := fun xyz_t : array =>
      let xyz := firstn 3 xyz_t in
      let t := item xyz_t (-1) in
      potential pot_ext xyz t in
    let xyz_t := hstack xyz [t] in
    if is_cond_met then true_func xyz_t else false_func xyz_t).

(** [Potential_Combine.potential]: the loop appends each child's value to
    [output]; the result is [jnp.sum(jnp.array(output))]. *)
Fixpoint combine_loop (potential_list : list Potential) (xyz : array) (t : float)
    (n : nat) (i : nat) (output : array) : array :=
  match n with
  | O => output
  | S n' =>
      match nth_error potential_list i with
      | Some p => combine_loop potential_list xyz t n' (S i)
                    (output ++ [potential p xyz t])
      | None => output
      end
  end.

Definition Potential_Combine (G : float) (potential_list : list Potential)
    : Potential :=
  mkPotential G (fun xyz t =>
    let output := combine_loop potential_list xyz t (length potential_list) 0 [] in
    sum output).

(** ** Leapfrog integrator *)

Definition leapfrog_step (func : array -> float -> array) (y0 : array)
    (t0 dt : float) (a0 : array) : float * array * array :=
  let ndim := (length y0 / 2)%nat in
  let tf := t0 + dt in
  let x0 := firstn ndim y0 in
  let v0 := skipn ndim y0 in
  let v1_2 := add v0 (divs (muls a0 dt) 2) in
  let xf := add x0 (muls v1_2 dt) in
  let af := neg (func xf tf) in
  let vf := add v1_2 (divs (muls af dt) 2) in
  (tf, xf ++ vf, af).

(** The carry of the scan of [leapfrog_run]: [i, y0, t0, dt, a0]. *)
Record leapfrog_carry := mkCarry {
  lc_i : Z;
  lc_y0 : array;
  lc_t0 : float;
  lc_dt : float;
  lc_a0 : array
}.

Definition leapfrog_scan_fun (func_ : array -> float -> array) (ts : array)
    (carry : leapfrog_carry) (t : float) : leapfrog_carry * array :=
  let '(mkCarry i y0 t0 dt a0) := carry in
  let '(tf, yf, af) := leapfrog_step func_ y0 t0 dt a0 in
  let dt_new := item ts (i + 1) - item ts i in
  let is_cond_met := 0 <? PrimFloat.abs dt_new in
  let true_func := fun dt_new : float => item ts (-1) - item ts (-2) in
  let false_func := fun dt_new : float => 0.0 in
  let dt_new := if is_cond_met then true_func dt_new else false_func dt_new in
  (mkCarry (i + 1) yf tf dt_new af, yf).

Definition leapfrog_init (w0 ts : array) (func_ : array -> float -> array)
    : leapfrog_carry :=
  let ndim := (length w0 / 2)%nat in
  let a0 := neg (func_ (firstn ndim w0) (item ts 0)) in
  let dt := item ts 1 - item ts 0 in
  mkCarry 0 w0 (item ts 0) dt a0.

(** The definition follows the code on the inputs the code runs on: a
    non-empty grid, an initial state with an even number of components and a
    gradient of the shape of its position argument.  On other inputs JAX
    raises (an empty grid cannot be indexed; a carry that changes shape is
    refused by the scan). *)
Definition leapfrog_run (w0 ts : array)
    (potential_gradient : array -> float -> array) : list array :=
  let func_ := fun y t => potential_gradient y t in
  let init_carry := leapfrog_init w0 ts func_ in
  let '(_, ws) := scan (leapfrog_scan_fun func_ ts) init_carry (skipn 1 ts) in
  w0 :: ws.

(** The step size [dt] with which each iteration of the scan of
    [leapfrog_run] calls [leapfrog_step]. *)
Definition leapfrog_steps (w0 ts : array)
    (potential_gradient : array -> float -> array) : list float :=
  map lc_dt
    (scan_carries (leapfrog_scan_fun potential_gradient ts)
       (leapfrog_init w0 ts potential_gradient) (skipn 1 ts)).

(** The step size the scan of [leapfrog_run] hands to its next iteration when
    its counter is [i]. *)
Definition next_step_size (ts : array) (i : Z) : float :=
  if 0 <? PrimFloat.abs (item ts (i + 1) - item ts i)
  then item ts (-1) - item ts (-2)
  else 0.0.

(** ** Indexing helper for phase-space positions ([psps/utils.py]) *)

Module Utils.

(** The index objects the helper distinguishes: a tuple, an object with a
    [shape] attribute ([HasShape]; [text] is what [str] prints for it), and
    everything else (integers, slices, [None], [Ellipsis]). *)
Inductive index :=
| Int (z : Z)
| Slice (start stop step : option Z)
| PyNone
| Ellipsis
| Tuple (items : list index)
| Shaped (shape : list nat) (text : string).

(** The time array, of which only [shape] and [ndim] are read. *)
Record time_array := mkTime { t_shape : list nat }.

Definition ndim (t : time_array) : nat := length (t_shape t).

Inductive exn := IndexError (msg : string).

Inductive result (A : Type) :=
| Ok (a : A)
| Raise (e : exn).

Arguments Ok {A} a.
Arguments Raise {A} e.

Definition repr_Z (z : Z) : string := NilZero.string_of_int (Z.to_int z).

Definition repr_opt (o : option Z) : string :=
  match o with Some z => repr_Z z | None => "None" end.

(** The text between the parentheses of a tuple with two or more items. *)
Fixpoint join (l : list string) : string :=
  match l with
  | [] => ""
  | [x] => x
  | x :: l' => x ++ ", " ++ join l'
  end.

Definition repr_tuple (items : list string) : string :=
  match items with
  | [] => "()"
  | [x] => "(" ++ x ++ ",)"
  | _ => "(" ++ join items ++ ")"
  end.

(** What an f-string prints for an index.  For a shaped object [text] is used
    wherever it stands (Python prints its [repr] when it is an item of a
    tuple). *)
Fixpoint repr (ix : index) : string :=
  match ix with
  | Int z => repr_Z z
  | Slice a b c =>
      "slice(" ++ repr_opt a ++ ", " ++ repr_opt b ++ ", " ++ repr_opt c ++ ")"
  | PyNone => "None"
  | Ellipsis => "Ellipsis"
  | Tuple items => repr_tuple (map repr items)
  | Shaped _ text => text
  end.

Definition repr_shape (shape : list nat) : string :=
  repr_tuple (map (fun n => repr_Z (Z.of_nat n)) shape).

Definition too_many_dimensions (ix : index) (t : time_array) : string :=
  "Index " ++ repr ix ++ " has too many dimensions for time array of shape "
    ++ repr_shape (t_shape t).

(** [slice(None)] *)
Definition slice_all : index := Slice None None None.

Definition _getitem_vec1time_index_tuple (index : list index) (t : time_array)
    : result Utils.index :=
  if (length index =? 0)%nat then Ok slice_all
  else if (ndim t =? 1)%nat then Ok slice_all
  else if (ndim t <=? length index)%nat then
    let msg := too_many_dimensions (Tuple index) t in
    Raise (IndexError msg)
  else Ok (Tuple index).

(** [jnp.asarray([True])] *)
Definition one_true : index := Shaped [1%nat] "[ True]".

Definition _getitem_vec1time_index_shaped (shape : list nat) (text : string)
    (t : time_array) : result index :=
  if (ndim t =? 1)%nat then Ok one_true
  else if (ndim t <=? length shape)%nat then
    let msg := too_many_dimensions (Shaped shape text) t in
    Raise (IndexError msg)
  else Ok (Shaped shape text).

Definition getitem_vec1time_index (index : Utils.index) (t : time_array)
    : result Utils.index :=
  match index with
  | Tuple items => _getitem_vec1time_index_tuple items t
  | Shaped shape text => _getitem_vec1time_index_shaped shape text t
  | _ => Ok index
  end.

(** [sub] occurs in [s]. *)
Definition contains (s sub : string) : Prop :=
  exists before after : string, s = (before ++ sub ++ after)%string.

End Utils.

(** ** A backend that evaluates

    Stand-ins for the external numerics, used to run the definitions on
    concrete inputs: central differences for [jax.grad], Newton's iteration
    for the cube root, a linear congruential generator for [jax.random], and
    the classical Runge-Kutta scheme with a fixed number of steps for the ODE
    solver.  The general theorems hold for every backend. *)

Module Demo.

Fixpoint perturb (x : array) (k : nat) (h : float) : array :=
  match x, k with
  | [], _ => []
  | a :: x', O => (a + h) :: x'
  | a :: x', S k' => a :: perturb x' k' h
  end.

Definition fd_step : float := 0.0009765625.

Definition fd_grad (f : array -> float) (x : array) : array :=
  map (fun k => (f (perturb x k fd_step) - f (perturb x k (- fd_step)))
                / (2 * fd_step))
      (seq 0 (length x)).

Fixpoint newton_cbrt (n : nat) (x y : float) : float :=
  match n with
  | O => y
  | S n' => newton_cbrt n' x ((2 * y + x / (y * y)) / 3)
  end.

Definition cbrt (x : float) : float :=
  newton_cbrt 200 x (if x <? 1 then 1 else x).

Definition float_of_Z (z : Z) : float :=
  if (z <? 0)%Z then - PrimFloat.of_uint63 (Uint63.of_Z (- z))
  else PrimFloat.of_uint63 (Uint63.of_Z z).

Definition lcg (k : Z) (j : nat) : Z :=
  ((k * 1103515245 + 12345 + Z.of_nat j * 7919) mod 2147483648)%Z.

Definition lcg_randint (k : Z) (n : nat) (minval maxval : Z) : list Z :=
  map (fun j => (minval + lcg k j mod (maxval - minval))%Z) (seq 0 n).

Definition lcg_normal (k : Z) : float :=
  float_of_Z (lcg k 17 mod 2001 - 1000) / 1000.

Definition rk4_step (f : float -> array -> array) (t : float) (y : array)
    (h : float) : array :=
  let k1 := f t y in
  let k2 := f (t + h / 2) (add y (smul (h / 2) k1)) in
  let k3 := f (t + h / 2) (add y (smul (h / 2) k2)) in
  let k4 := f (t + h) (add y (smul h k3)) in
  add y (smul (h / 6) (add (add k1 (smul 2 k2)) (add (smul 2 k3) k4))).

Fixpoint rk4_steps (n : nat) (f : float -> array -> array) (t : float)
    (y : array) (h : float) : array :=
  match n with
  | O => y
  | S n' => rk4_steps n' f (t + h) (rk4_step f t y h) h
  end.

Definition rk4_state (f : float -> array -> array) (rtol atol : float)
    (y0 : array) (t0 t1 t : float) : array :=
  rk4_steps 8 f t0 y0 ((t - t0) / 8).

Definition rk4_final (f : float -> array -> array) (rtol atol : float)
    (y0 : array) (t0 t1 : float) : array :=
  rk4_steps 8 f t0 y0 ((t1 - t0) / 8).

Definition backend : Backend :=
  mkBackend fd_grad cbrt Z (fun seed => seed) lcg_randint lcg_normal
    rk4_state rk4_final.

(** Inputs on which the definitions are run: an isochrone host in
    dimensionless units ([G = 1]), a progenitor on a nearly circular orbit,
    and a ten-point time grid. *)
Definition host : Potential := Isochrone 1 1 1.
Definition prog_w0 : array := [8; 0; 0; 0; 0.3; 0].
Definition Msat : float := 0.0001.

(** The gradient of a constant potential: a free particle. *)
Definition zero_gradient (x : array) (t : float) : array := map (fun _ => 0) x.

End Demo.

(** ** Potentials: properties *)

Lemma combine_loop_spec (l : list Potential) xyz t :
  forall (rest : list Potential) (done : list Potential) (out : array),
    l = done ++ rest ->
    combine_loop l xyz t (length rest) (length done) out =
    out ++ map (fun p => potential p xyz t) rest.
Proof.
  induction rest as [|p rest IH]; intros done out Hl; simpl.
  - now rewrite app_nil_r.
  - assert (Hnth : nth_error l (length done) = Some p).
    { subst l. rewrite nth_error_app2 by lia. now rewrite Nat.sub_diag. }
    rewrite Hnth.
    specialize (IH (done ++ [p]) (out ++ [potential p xyz t])).
    rewrite length_app in IH. simpl in IH. rewrite Nat.add_1_r in IH.
    rewrite IH.
    + now rewrite <- app_assoc.
    + subst l. now rewrite <- app_assoc.
Qed.

(** C8. The value of a composite potential at a position and time is the sum
    of the values of its children at that position and time: starting from
    [0.0], the children's values are added one after another with binary64
    addition, in the order of the list. *)
Theorem Potential_Combine_potential_sum (G : float) (children : list Potential)
    (xyz : array) (t : float) :
  potential (Potential_Combine G children) xyz t =
  fold_left PrimFloat.add (map (fun child => potential child xyz t) children) 0.
Proof.
  unfold Potential_Combine. cbn [potential]. unfold sum. f_equal.
  exact (combine_loop_spec children xyz t children [] [] eq_refl).
Qed.

(** The composite of an isochrone and a Miyamoto-Nagai disk, compared with the
    manual sum at [xyz = (8, 0, 0)]. *)
Example Potential_Combine_two_children :
  let a := Isochrone 1 1 1 in
  let b := MiyamotoNagaiDisk 1 1 1 0.5 in
  potential (Potential_Combine 1 [a; b]) [8; 0; 0] 0 =
  potential a [8; 0; 0] 0 + potential b [8; 0; 0] 0.
Proof. vm_compute. reflexivity. Qed.

(** C9. The acceleration is the gradient with every component negated: the
    arrays have the same length and component [k] of the acceleration is the
    exact floating-point negation of component [k] of the gradient. *)
Theorem acceleration_neg_gradient (B : Backend) (P : Potential)
    (p : array) (t : float) :
  acceleration B P p t = map PrimFloat.opp (gradient B P p t) /\
  length (acceleration B P p t) = length (gradient B P p t) /\
  forall k : nat,
    nth k (acceleration B P p t) (- 0) = - nth k (gradient B P p t) 0.
Proof.
  unfold acceleration, neg. repeat split.
  - apply length_map.
  - intro k. apply (map_nth PrimFloat.opp).
Qed.

(** ** NaN in binary64 arithmetic *)

Lemma add_nan_r (x : float) : x + nan = nan.
Proof.
  apply Prim2SF_inj. rewrite FloatAxioms.add_spec.
  change (Prim2SF nan) with S754_nan.
  unfold SF64add, SFadd. now destruct (Prim2SF x).
Qed.

Lemma add_nan_l (x : float) : nan + x = nan.
Proof.
  apply Prim2SF_inj. rewrite FloatAxioms.add_spec.
  change (Prim2SF nan) with S754_nan. reflexivity.
Qed.

Lemma mul_nan_r (x : float) : x * nan = nan.
Proof.
  apply Prim2SF_inj. rewrite FloatAxioms.mul_spec.
  change (Prim2SF nan) with S754_nan.
  unfold SF64mul, SFmul. now destruct (Prim2SF x).
Qed.

Lemma mul_nan_l (x : float) : nan * x = nan.
Proof.
  apply Prim2SF_inj. rewrite FloatAxioms.mul_spec.
  change (Prim2SF nan) with S754_nan. reflexivity.
Qed.

Create Rewrite HintDb nan_absorb.
#[export] Hint Rewrite add_nan_r add_nan_l mul_nan_r mul_nan_l : nan_absorb.

(** ** Release model: properties *)

Section ReleaseModel.

Variable B : Backend.
Variable P : Potential.

(** A tidal radius that is NaN makes every component of the four outputs NaN. *)
Lemma release_from_keys_nan (keys : list (Key B)) (x0 x1 x2 v0 v1 v2 : float)
    (Msat t : float) :
  tidalr_mw B P [x0; x1; x2] [v0; v1; v2] Msat t = nan ->
  release_from_keys B P keys [x0; x1; x2] [v0; v1; v2] Msat t =
  ([nan; nan; nan], [nan; nan; nan], [nan; nan; nan], [nan; nan; nan]).
Proof.
  intro Htid. unfold release_from_keys, lagrange_pts. rewrite Htid.
  change (- nan) with nan. change (nan / 1.0) with nan.
  cbv [add sub muls smul divs broadcast map map2 cross].
  autorewrite with nan_absorb. reflexivity.
Qed.

(** At release index 0 every sub-key is [PRNGKey(0)]. *)
Lemma release_keys_index0 (seed_num : Z) :
  release_keys B 0 seed_num = repeat (PRNGKey B 0) 5.
Proof. reflexivity. Qed.

End ReleaseModel.

(** C3 (as amended).  No condition is signalled for a degenerate tidal radius:
    [tidalr_mw] and [release_model] are total functions returning arrays.
    When the radicand [G * Msat / (omega^2 - d2phidr2)] is negative and
    finite, the tidal radius is the ordinary value NaN, and the release model
    consumes it and returns four vectors whose every component is NaN. *)
Theorem degenerate_tidal_radius_yields_nan (B : Backend) (P : Potential)
    (x0 x1 x2 v0 v1 v2 Msat : float) (i : Z) (t : float) (seed_num : Z) :
  (tidal_radicand B P [x0; x1; x2] [v0; v1; v2] Msat t <? 0) = true ->
  (tidal_radicand B P [x0; x1; x2] [v0; v1; v2] Msat t =? neg_infinity) = false ->
  tidalr_mw B P [x0; x1; x2] [v0; v1; v2] Msat t = nan /\
  release_model B P [x0; x1; x2] [v0; v1; v2] Msat i t seed_num =
  ([nan; nan; nan], [nan; nan; nan], [nan; nan; nan], [nan; nan; nan]).
Proof.
  intros Hneg Hfin.
  assert (Htid : tidalr_mw B P [x0; x1; x2] [v0; v1; v2] Msat t = nan).
  { unfold tidalr_mw, pow_third. rewrite Hneg, Hfin.
    now destruct (PrimFloat.is_nan _). }
  split; [exact Htid|].
  unfold release_model. now apply release_from_keys_nan.
Qed.

(** The hypotheses of [degenerate_tidal_radius_yields_nan] hold for a
    Miyamoto-Nagai disk, at a point inside its core on a slow orbit. *)
Lemma degenerate_tidal_radius_yields_nan_witness :
  (tidal_radicand Demo.backend (MiyamotoNagaiDisk 1 1 1 0.5)
     [0.2; 0.1; 0] [0; 0.002; 0.001] 0.0001 0 <? 0) = true /\
  (tidal_radicand Demo.backend (MiyamotoNagaiDisk 1 1 1 0.5)
     [0.2; 0.1; 0] [0; 0.002; 0.001] 0.0001 0 =? neg_infinity) = false /\
  tidalr_mw Demo.backend (MiyamotoNagaiDisk 1 1 1 0.5)
    [0.2; 0.1; 0] [0; 0.002; 0.001] 0.0001 0 = nan /\
  release_model Demo.backend (MiyamotoNagaiDisk 1 1 1 0.5)
    [0.2; 0.1; 0] [0; 0.002; 0.001] 0.0001 4 0 7 =
  ([nan; nan; nan], [nan; nan; nan], [nan; nan; nan], [nan; nan; nan]).
Proof.
  split; [vm_compute; reflexivity|]. split; [vm_compute; reflexivity|].
  apply (degenerate_tidal_radius_yields_nan Demo.backend
           (MiyamotoNagaiDisk 1 1 1 0.5) 0.2 0.1 0 0 0.002 0.001 0.0001 4 0 7);
    vm_compute; reflexivity.
Defined.

(** C3, as stated, fails.  For the isochrone host and a progenitor inside its
    core ([r = 0.1], where the second radial derivative of the potential is
    about [0.24] and [omega^2 = 1e-4]) the radicand is negative; [tidalr_mw]
    returns NaN as an ordinary value and [release_model] returns four all-NaN
    vectors: the NaN is consumed silently. *)
Lemma degenerate_tidal_radius_is_silent :
  (tidal_radicand Demo.backend Demo.host [0.1; 0; 0] [0; 0.001; 0] Demo.Msat 0 <? 0)
    = true /\
  tidalr_mw Demo.backend Demo.host [0.1; 0; 0] [0; 0.001; 0] Demo.Msat 0 = nan /\
  release_model Demo.backend Demo.host [0.1; 0; 0] [0; 0.001; 0] Demo.Msat 3 0 42 =
  ([nan; nan; nan], [nan; nan; nan], [nan; nan; nan], [nan; nan; nan]).
Proof. repeat split; vm_compute; reflexivity. Qed.

(** C7. At release index 0 the output of [release_model] does not depend on
    the seed: every sub-key is [PRNGKey(0 * random_ints[k]) = PRNGKey(0)]. *)
Theorem release_model_index0_seed_independent (B : Backend) (P : Potential)
    (x v : array) (Msat t : float) (s1 s2 : Z) :
  release_model B P x v Msat 0 t s1 = release_model B P x v Msat 0 t s2.
Proof.
  unfold release_model. now rewrite !release_keys_index0.
Qed.

(** C2: the release model at release index 0.  The integers drawn for seeds
    1 and 2 differ, and at release index 1 the two seeds give different
    releases; at release index 0 the two seeds give the same release, and so
    do any two seeds for any potential and progenitor state: every sub-key is
    [PRNGKey(0 * random_ints[k])], from which the seed has been multiplied
    away. *)
Theorem release_model_seed_lost_at_index0 :
  randint Demo.backend (PRNGKey Demo.backend 1) 5 0 1000 <>
    randint Demo.backend (PRNGKey Demo.backend 2) 5 0 1000 /\
  release_model Demo.backend Demo.host [8; 0; 0] [0; 0.3; 0] Demo.Msat 1 1 1 <>
    release_model Demo.backend Demo.host [8; 0; 0] [0; 0.3; 0] Demo.Msat 1 1 2 /\
  release_model Demo.backend Demo.host [8; 0; 0] [0; 0.3; 0] Demo.Msat 0 1 1 =
    release_model Demo.backend Demo.host [8; 0; 0] [0; 0.3; 0] Demo.Msat 0 1 2 /\
  ~ exists (B : Backend) (P : Potential) (x v : array) (Msat t : float)
      (s1 s2 : Z),
      release_model B P x v Msat 0 t s1 <> release_model B P x v Msat 0 t s2.
Proof.
  split; [|split; [|split]].
  - vm_compute. discriminate.
  - intro H.
    apply (f_equal (fun r : ics => item (fst (fst (fst r))) 0
                                   =? item (fst (fst (fst
                                        (release_model Demo.backend Demo.host
                                           [8; 0; 0] [0; 0.3; 0] Demo.Msat 1 1 2)))) 0)) in H.
    vm_compute in H. discriminate H.
  - vm_compute. reflexivity.
  - intros (B & P & x & v & Msat & t & s1 & s2 & Hne). apply Hne.
    unfold release_model. now rewrite !release_keys_index0.
Qed.

(** ** Arrays and scans: auxiliary facts *)

Lemma getitem_nat {A} (d : A) (a : list A) (k : nat) :
  (k < length a)%nat -> getitem d a (Z.of_nat k) = nth k a d.
Proof.
  intro Hk. unfold getitem.
  destruct (Z.ltb_spec (Z.of_nat k) 0) as [Hlt|_]; [lia|].
  f_equal. lia.
Qed.




Lemma map_seq_shift {A} (f : nat -> A) (s n : nat) :
  map f (seq (S s) n) = map (fun k => f (S k)) (seq s n).
Proof. now rewrite <- seq_shift, map_map. Qed.

(** ** Orbit integrator: properties *)

Lemma orbit_integrator_run_no_grid (B : Backend) (P : Potential)
    (w0 : array) (t0 t1 : float) :
  orbit_integrator_run B P w0 t0 t1 None = Some [final_state B P w0 t0 t1].
Proof. reflexivity. Qed.

Lemma orbit_integrator_run_grid (B : Backend) (P : Potential)
    (w0 : array) (t0 t1 : float) (ts : array) :
  orbit_integrator_run B P w0 t0 t1 (Some ts) =
  if saveat_ts_accepted t0 t1 ts
  then Some (map (progenitor_state B P w0 t0 t1) ts ++ [final_state B P w0 t0 t1])
  else None.
Proof.
  unfold orbit_integrator_run, diffeqsolve. cbn [sa_ts sa_t0 sa_t1].
  now destruct (saveat_ts_accepted t0 t1 ts).
Qed.

(** C5 (as amended).  Without a save grid the orbit integrator returns exactly
    one state, the final state at [t1].  With a save grid [ts] that the
    solver accepts it returns the states saved for those times followed by
    one more state, the final state at [t1] ([len(ts) + 1] states): the
    [SaveAt] is built with [t1=True] in both modes.  A save grid that the
    solver rejects (an entry smaller than its predecessor, or outside the
    interval of integration) makes the call fail. *)
Theorem orbit_integrator_run_save_policy (B : Backend) (P : Potential)
    (w0 : array) (t0 t1 : float) (ts : array) :
  let state := ode_state B (velocity_acceleration B P) 1e-7 1e-7 w0 t0 t1 in
  let final := ode_final B (velocity_acceleration B P) 1e-7 1e-7 w0 t0 t1 in
  orbit_integrator_run B P w0 t0 t1 None = Some [final] /\
  orbit_integrator_run B P w0 t0 t1 (Some ts) =
    (if saveat_ts_accepted t0 t1 ts then Some (map state ts ++ [final]) else None) /\
  forall ys : list array,
    orbit_integrator_run B P w0 t0 t1 (Some ts) = Some ys ->
    length ys = S (length ts).
Proof.
  cbv zeta. split; [reflexivity|]. split; [apply orbit_integrator_run_grid|].
  intros ys. rewrite orbit_integrator_run_grid.
  destruct (saveat_ts_accepted t0 t1 ts); [|discriminate].
  intro H. injection H as <-.
  rewrite length_app, length_map. cbn [length]. lia.
Qed.

(** C5, as stated, fails.  Over the three-point save grid [0, 1, 2] the
    integrator returns four states. *)
Lemma orbit_integrator_run_extra_state :
  match orbit_integrator_run Demo.backend Demo.host Demo.prog_w0 0 2
          (Some [0; 1; 2]) with
  | Some ys => length ys = 4%nat /\ length ys <> length [0; 1; 2]
  | None => False
  end.
Proof. vm_compute. split; [reflexivity | discriminate]. Qed.

(** ** Stream generator: properties *)

Section StreamGenerator.

Variable B : Backend.
Variable P : Potential.



End StreamGenerator.




Section Strategies.

Variable B : Backend.
Variable P : Potential.



Lemma scan_length {C X Y} (f : C -> X -> C * Y) (l : list X) :
  forall c : C, length (snd (scan f c l)) = length l.
Proof.
  induction l as [|x l IH]; intro c; [reflexivity|].
  cbn [scan]. destruct (f c x) as [c1 y]. specialize (IH c1).
  destruct (scan f c1 l) as [c2 ys]. cbn [snd length] in *. now rewrite IH.
Qed.


(** A grid the orbit integrator rejects makes [gen_stream_ics] fail. *)
Lemma gen_stream_ics_rejected (ts : array) (prog_w0 : array) (Msat : float)
    (seed_num : Z) :
  grid_accepted ts = false ->
  gen_stream_ics B P ts prog_w0 Msat seed_num = None.
Proof.
  unfold grid_accepted, gen_stream_ics. intro Hrej.
  destruct (Jnp.min ts) as [tmin|]; [|reflexivity].
  destruct (Jnp.max ts) as [tmax|]; [|reflexivity].
  now rewrite orbit_integrator_run_grid, Hrej.
Qed.



End Strategies.




(** ** Leapfrog integrator: properties *)

Lemma leapfrog_scan_fun_carry (func_ : array -> float -> array) (ts : array)
    (c : leapfrog_carry) (t : float) :
  lc_i (fst (leapfrog_scan_fun func_ ts c t)) = (lc_i c + 1)%Z /\
  lc_dt (fst (leapfrog_scan_fun func_ ts c t)) = next_step_size ts (lc_i c).
Proof.
  destruct c as [i y0 t0 dt a0]. unfold leapfrog_scan_fun, next_step_size.
  destruct (leapfrog_step func_ y0 t0 dt a0) as [[tf yf] af]. now split.
Qed.

Lemma leapfrog_carries_dt (func_ : array -> float -> array) (ts : array)
    (l : array) :
  forall (c : leapfrog_carry) (t : float),
    map lc_dt (scan_carries (leapfrog_scan_fun func_ ts) c (t :: l)) =
    lc_dt c ::
    map (fun k => next_step_size ts (lc_i c + Z.of_nat k)) (seq 0 (length l)).
Proof.
  induction l as [|t' l IH]; intros c t; [reflexivity|].
  change (scan_carries (leapfrog_scan_fun func_ ts) c (t :: t' :: l))
    with (c :: scan_carries (leapfrog_scan_fun func_ ts)
                 (fst (leapfrog_scan_fun func_ ts c t)) (t' :: l)).
  cbn [map]. rewrite IH.
  destruct (leapfrog_scan_fun_carry func_ ts c t) as [Hi Hdt].
  rewrite Hi, Hdt. cbn [length seq map]. rewrite Z.add_0_r. do 2 f_equal.
  rewrite map_seq_shift. apply map_ext. intro k. f_equal. lia.
Qed.

(** C4 (as amended).  The first step of [leapfrog_run] has size
    [ts[1] - ts[0]].  The step taken by iteration [k + 1] does not equal a
    grid difference in general: it is the last grid spacing [ts[-1] - ts[-2]]
    whenever [ts[k + 1] - ts[k]] is non-zero, and [0.0] (no advance) when that
    difference is zero. *)
Theorem leapfrog_step_sizes (w0 : array) (t0 t1 : float) (rest : array)
    (potential_gradient : array -> float -> array) :
  let ts := t0 :: t1 :: rest in
  leapfrog_steps w0 ts potential_gradient =
  (t1 - t0) ::
  map (fun k =>
         if 0 <? PrimFloat.abs (item ts (Z.of_nat k + 1) - item ts (Z.of_nat k))
         then item ts (-1) - item ts (-2)
         else 0.0)
      (seq 0 (length rest)).
Proof.
  intro ts. subst ts. unfold leapfrog_steps. cbn [skipn].
  rewrite leapfrog_carries_dt. unfold leapfrog_init. cbn [lc_dt lc_i].
  f_equal.
  assert (H1 : item (t0 :: t1 :: rest) 1 = t1)
    by (apply (getitem_nat 0 (t0 :: t1 :: rest) 1); cbn [length]; lia).
  assert (H0 : item (t0 :: t1 :: rest) 0 = t0)
    by (apply (getitem_nat 0 (t0 :: t1 :: rest) 0); cbn [length]; lia).
  now rewrite H1, H0.
Qed.

(** C4, as stated, fails.  For a free particle on the grid [0, 1, 2, 4] the
    grid differences are [1, 1, 2] but the steps taken are [1, 2, 2]: the
    particle is at [x = 3] after the second step.  On the grid [0, 0, 1] the
    first difference is zero and the steps taken are [0, 0]: the integrator
    stalls instead of falling back to the last grid spacing [1]. *)
Lemma leapfrog_steps_differ_from_grid :
  leapfrog_steps [0; 1] [0; 1; 2; 4] Demo.zero_gradient = [1; 2; 2] /\
  leapfrog_run [0; 1] [0; 1; 2; 4] Demo.zero_gradient =
    [[0; 1]; [1; 1]; [3; 1]; [5; 1]] /\
  leapfrog_steps [0; 1] [0; 0; 1] Demo.zero_gradient = [0; 0] /\
  leapfrog_run [0; 1] [0; 0; 1] Demo.zero_gradient = [[0; 1]; [0; 1]; [0; 1]].
Proof. repeat split; vm_compute; reflexivity. Qed.

(** ** Indexing helper: properties *)

Module UtilsFacts.

Import Utils.

Lemma append_nil_r (s : string) : (s ++ "")%string = s.
Proof. induction s as [|a s IH]; simpl; [reflexivity | now rewrite IH]. Qed.

Lemma append_assoc (s1 s2 s3 : string) :
  ((s1 ++ s2) ++ s3)%string = (s1 ++ s2 ++ s3)%string.
Proof. induction s1 as [|a s1 IH]; simpl; [reflexivity | now rewrite IH]. Qed.

(** The message of the error names the index and the shape. *)
Lemma too_many_dimensions_contains (ix : index) (t : time_array) :
  contains (too_many_dimensions ix t) (repr ix) /\
  contains (too_many_dimensions ix t) (repr_shape (t_shape t)).
Proof.
  unfold too_many_dimensions, contains. split.
  - now exists "Index "%string,
      (" has too many dimensions for time array of shape "
         ++ repr_shape (t_shape t))%string.
  - exists ("Index " ++ repr ix
              ++ " has too many dimensions for time array of shape ")%string,
           ""%string.
    now rewrite append_nil_r, !append_assoc.
Qed.

(** C10 (as amended).  An empty tuple index yields [slice(None)] against every
    time array, and so does every tuple index against a time array of rank 1,
    however many entries the tuple has.  Against a time array of any other
    rank, a non-empty tuple with at least as many entries as the rank raises
    an [IndexError] whose message contains the index and the shape of the
    time array; a shorter non-empty tuple is returned unchanged. *)
Theorem getitem_vec1time_index_tuple (items : list index) (t : time_array) :
  getitem_vec1time_index (Tuple []) t = Ok slice_all /\
  (ndim t = 1%nat -> getitem_vec1time_index (Tuple items) t = Ok slice_all) /\
  (items <> [] -> ndim t <> 1%nat -> (ndim t <= length items)%nat ->
   exists msg : string,
     getitem_vec1time_index (Tuple items) t = Raise (IndexError msg) /\
     contains msg (repr (Tuple items)) /\
     contains msg (repr_shape (t_shape t))) /\
  (items <> [] -> ndim t <> 1%nat -> (length items < ndim t)%nat ->
   getitem_vec1time_index (Tuple items) t = Ok (Tuple items)).
Proof.
  unfold getitem_vec1time_index, _getitem_vec1time_index_tuple.
  split; [reflexivity|]. split; [|split].
  - intro H1. rewrite H1. now destruct items.
  - intros Hne H1 Hle. destruct items as [|ix items]; [now contradict Hne|].
    cbn [length Nat.eqb].
    destruct (Nat.eqb_spec (ndim t) 1) as [E|_]; [now contradict H1|].
    destruct (Nat.leb_spec (ndim t) (S (length items))) as [_|Hlt];
      [|cbn [length] in Hle; lia].
    eexists. split; [reflexivity|].
    apply too_many_dimensions_contains.
  - intros Hne H1 Hlt. destruct items as [|ix items]; [now contradict Hne|].
    cbn [length Nat.eqb].
    destruct (Nat.eqb_spec (ndim t) 1) as [E|_]; [now contradict H1|].
    destruct (Nat.leb_spec (ndim t) (S (length items))) as [Hle|_];
      [cbn [length] in Hlt; lia | reflexivity].
Qed.

(** The cases of [test_utils.py]: the empty tuple and a two-entry tuple against
    a time array of shape [(3,)], and a two-entry tuple against shape
    [(2, 3)]. *)
Example test_tuple_cases :
  getitem_vec1time_index (Tuple []) (mkTime [3%nat]) = Ok slice_all /\
  getitem_vec1time_index (Tuple [slice_all; Int 1]) (mkTime [3%nat]) = Ok slice_all /\
  getitem_vec1time_index (Tuple [Slice (Some 0%Z) (Some 3%Z) None; Int 1])
    (mkTime [2%nat; 3%nat]) =
  Raise (IndexError
    "Index (slice(0, 3, None), 1) has too many dimensions for time array of shape (2, 3)").
Proof. repeat split. Qed.

(** C10, as stated, fails.  Against a time array of shape [(3,)] (rank 1) the
    tuple index [(slice(None), 1)] has more entries than the rank, and the
    helper returns [slice(None)] instead of raising. *)
Lemma getitem_vec1time_index_rank1_no_error :
  let index := Tuple [slice_all; Int 1] in
  let t := mkTime [3%nat] in
  (ndim t < length [slice_all; Int 1])%nat /\
  getitem_vec1time_index index t = Ok slice_all /\
  forall msg : string, getitem_vec1time_index index t <> Raise (IndexError msg).
Proof.
  cbv zeta. split; [cbv; lia|]. split; [reflexivity|].
  intros msg H. discriminate H.
Qed.

End UtilsFacts.

(** ** Indexing helper: further properties *)

Module IndexNormalisation.

Import Utils.

(** X1. A shaped index against a time array of rank 1 collapses to the
    one-element mask [[True]], whatever its own shape.  Against any other rank
    it raises when it has at least as many dimensions as the time array, with
    a message that contains the index and the shape of the time array, and is
    returned unchanged otherwise. *)
Theorem getitem_vec1time_index_shaped (shape : list nat) (text : string)
    (t : time_array) :
  (ndim t = 1%nat ->
   getitem_vec1time_index (Shaped shape text) t = Ok one_true) /\
  (ndim t <> 1%nat -> (ndim t <= length shape)%nat ->
   exists msg : string,
     getitem_vec1time_index (Shaped shape text) t = Raise (IndexError msg) /\
     contains msg text /\ contains msg (repr_shape (t_shape t))) /\
  (ndim t <> 1%nat -> (length shape < ndim t)%nat ->
   getitem_vec1time_index (Shaped shape text) t = Ok (Shaped shape text)).
Proof.
  unfold getitem_vec1time_index, _getitem_vec1time_index_shaped.
  split; [|split].
  - intro H1. now rewrite H1.
  - intros H1 Hle.
    destruct (Nat.eqb_spec (ndim t) 1) as [E|_]; [now contradict H1|].
    destruct (Nat.leb_spec (ndim t) (length shape)) as [_|Hlt]; [|lia].
    eexists. split; [reflexivity|].
    apply (UtilsFacts.too_many_dimensions_contains (Shaped shape text) t).
  - intros H1 Hlt.
    destruct (Nat.eqb_spec (ndim t) 1) as [E|_]; [now contradict H1|].
    destruct (Nat.leb_spec (ndim t) (length shape)) as [Hle|_];
      [lia | reflexivity].
Qed.

(** X2. The helper raises exactly when the time array does not have rank 1 and the
    index is a non-empty tuple, or a shaped object, with at least as many
    dimensions as the time array.  Integers, slices, [None] and [Ellipsis]
    never raise, and nothing raises against a time array of rank 1. *)
Theorem getitem_vec1time_index_raises_iff (ix : index) (t : time_array) :
  (exists e : exn, getitem_vec1time_index ix t = Raise e) <->
  ndim t <> 1%nat /\
  ((exists items : list index,
      ix = Tuple items /\ items <> [] /\ (ndim t <= length items)%nat) \/
   (exists (shape : list nat) (text : string),
      ix = Shaped shape text /\ (ndim t <= length shape)%nat)).
Proof.
  unfold getitem_vec1time_index, _getitem_vec1time_index_tuple,
    _getitem_vec1time_index_shaped.
  split.
  - intros [e He].
    destruct ix as [z|a b c| | |items|shape text]; try discriminate He.
    + destruct items as [|i items]; [discriminate He|].
      cbn [length Nat.eqb] in He.
      destruct (Nat.eqb_spec (ndim t) 1) as [E|Hn]; [discriminate He|].
      destruct (Nat.leb_spec (ndim t) (S (length items))) as [Hle|_];
        [|discriminate He].
      split; [exact Hn|]. left. exists (i :: items).
      repeat split; [discriminate | exact Hle].
    + destruct (Nat.eqb_spec (ndim t) 1) as [E|Hn]; [discriminate He|].
      destruct (Nat.leb_spec (ndim t) (length shape)) as [Hle|_];
        [|discriminate He].
      split; [exact Hn|]. right. now exists shape, text.
  - intros [Hn [(items & -> & Hne & Hle)|(shape & text & -> & Hle)]].
    + destruct items as [|i items]; [now contradict Hne|].
      cbn [length Nat.eqb].
      destruct (Nat.eqb_spec (ndim t) 1) as [E|_]; [now contradict Hn|].
      destruct (Nat.leb_spec (ndim t) (S (length items))) as [_|Hlt];
        [|cbn [length] in Hle; lia].
      now eexists.
    + destruct (Nat.eqb_spec (ndim t) 1) as [E|_]; [now contradict Hn|].
      destruct (Nat.leb_spec (ndim t) (length shape)) as [_|Hlt]; [|lia].
      now eexists.
Qed.

(** X3. A tuple index that the helper returns always has fewer entries than the
    time array has dimensions. *)
Theorem getitem_vec1time_index_tuple_result (ix : index) (t : time_array)
    (items : list index) :
  getitem_vec1time_index ix t = Ok (Tuple items) ->
  (length items < ndim t)%nat.
Proof.
  unfold getitem_vec1time_index, _getitem_vec1time_index_tuple,
    _getitem_vec1time_index_shaped.
  intro H. destruct ix as [z|a b c| | |its|shape text]; try discriminate H.
  - destruct its as [|i its]; [discriminate H|].
    cbn [length Nat.eqb] in H.
    destruct (Nat.eqb_spec (ndim t) 1) as [E|_]; [discriminate H|].
    destruct (Nat.leb_spec (ndim t) (S (length its))) as [_|Hlt];
      [discriminate H|].
    injection H as <-. exact Hlt.
  - destruct (Nat.eqb (ndim t) 1); [discriminate H|].
    destruct (Nat.leb (ndim t) (length shape)); discriminate H.
Qed.

Lemma getitem_vec1time_index_tuple_result_witness :
  getitem_vec1time_index (Tuple [Int 0; Int 1]) (mkTime [1%nat; 2%nat; 3%nat]) =
    Ok (Tuple [Int 0; Int 1]) /\
  (length [Int 0; Int 1] < ndim (mkTime [1%nat; 2%nat; 3%nat]))%nat.
Proof.
  split; [reflexivity|].
  apply (getitem_vec1time_index_tuple_result
           (Tuple [Int 0; Int 1]) (mkTime [1%nat; 2%nat; 3%nat]) [Int 0; Int 1]).
  reflexivity.
Defined.

(** X4. Normalising is idempotent: an index that the helper returns is returned
    unchanged when handed to the helper again with the same time array. *)
Theorem getitem_vec1time_index_idempotent (ix ix' : index) (t : time_array) :
  getitem_vec1time_index ix t = Ok ix' ->
  getitem_vec1time_index ix' t = Ok ix'.
Proof.
  unfold getitem_vec1time_index, _getitem_vec1time_index_tuple,
    _getitem_vec1time_index_shaped.
  intro H.
  destruct ix as [z|a b c| | |items|shape text];
    try (injection H as <-; reflexivity).
  - destruct items as [|i items]; [injection H as <-; reflexivity|].
    cbn [length Nat.eqb] in H.
    destruct (Nat.eqb (ndim t) 1) eqn:E1; [injection H as <-; reflexivity|].
    destruct (Nat.leb (ndim t) (S (length items))) eqn:E2; [discriminate H|].
    injection H as <-. cbn [length Nat.eqb]. now rewrite ?E1, ?E2.
  - destruct (Nat.eqb (ndim t) 1) eqn:E1.
    + injection H as <-. reflexivity.
    + destruct (Nat.leb (ndim t) (length shape)) eqn:E2; [discriminate H|].
      injection H as <-. now rewrite ?E1, ?E2.
Qed.

Lemma getitem_vec1time_index_idempotent_witness :
  getitem_vec1time_index (Shaped [2%nat; 3%nat] "[[ True False  True] [False  True False]]")
    (mkTime [3%nat]) = Ok one_true /\
  getitem_vec1time_index one_true (mkTime [3%nat]) = Ok one_true.
Proof.
  split; [reflexivity|].
  apply (getitem_vec1time_index_idempotent
           (Shaped [2%nat; 3%nat] "[[ True False  True] [False  True False]]")
           one_true (mkTime [3%nat])).
  reflexivity.
Defined.

End IndexNormalisation.

(** ** Potentials: further properties *)

Lemma square_opp (x : float) : square (- x) = square x.
Proof.
  unfold square. apply Prim2SF_inj.
  rewrite !FloatAxioms.mul_spec, FloatAxioms.opp_spec.
  unfold SF64mul, SFmul, SFopp.
  destruct (Prim2SF x) as [s|s| |s m e]; try reflexivity;
    now rewrite ?xorb_negb_negb.
Qed.

Lemma SFcompare_refl (x : spec_float) :
  SFcompare x x = Some Eq \/ SFcompare x x = None.
Proof.
  destruct x as [s|s| |s m e]; simpl; auto.
  - destruct s; auto.
  - destruct s; rewrite Z.compare_refl, Pos.compare_refl; simpl; auto.
Qed.

Lemma ltb_irrefl (x : float) : (x <? x) = false.
Proof.
  rewrite FloatAxioms.ltb_spec. unfold SFltb.
  destruct (SFcompare_refl (Prim2SF x)) as [-> | ->]; reflexivity.
Qed.

Lemma fold_add_nan (l : array) : fold_left PrimFloat.add l nan = nan.
Proof.
  induction l as [|x l IH]; [reflexivity|].
  cbn [fold_left]. now rewrite add_nan_l.
Qed.

Lemma fold_add_In_nan (l : array) :
  In nan l -> forall acc : float, fold_left PrimFloat.add l acc = nan.
Proof.
  induction l as [|x l IH]; intros Hin acc; [contradiction|].
  cbn [fold_left]. destruct Hin as [->|Hin].
  - rewrite add_nan_r. apply fold_add_nan.
  - now apply IH.
Qed.

Lemma combine_output (children : list Potential) (xyz : array) (t : float) :
  combine_loop children xyz t (length children) 0 [] =
  map (fun p => potential p xyz t) children.
Proof. exact (combine_loop_spec children xyz t children [] [] eq_refl). Qed.

(** X5. A child whose value at a point is NaN makes the composite NaN there,
    wherever the child stands in the list and whatever the other children
    evaluate to. *)
Theorem Potential_Combine_nan_child (G : float) (children : list Potential)
    (child : Potential) (xyz : array) (t : float) :
  In child children ->
  potential child xyz t = nan ->
  potential (Potential_Combine G children) xyz t = nan.
Proof.
  intros Hin Hnan. unfold Potential_Combine. cbn [potential].
  rewrite combine_output. unfold sum. apply fold_add_In_nan.
  rewrite <- Hnan. now apply (in_map (fun p => potential p xyz t)).
Qed.

Lemma Potential_Combine_nan_child_witness :
  let bad := mkPotential 1 (fun xyz t => PrimFloat.sqrt (item xyz 0)) in
  potential bad [- 1; 0; 0] 0 = nan /\
  potential (Potential_Combine 1 [Isochrone 1 1 1; bad; MiyamotoNagaiDisk 1 1 1 0.5])
    [- 1; 0; 0] 0 = nan.
Proof.
  cbv zeta. split; [reflexivity|].
  apply (Potential_Combine_nan_child 1
           [Isochrone 1 1 1;
            mkPotential 1 (fun xyz t => PrimFloat.sqrt (item xyz 0));
            MiyamotoNagaiDisk 1 1 1 0.5]
           (mkPotential 1 (fun xyz t => PrimFloat.sqrt (item xyz 0)))).
  - right. left. reflexivity.
  - reflexivity.
Defined.

(** X6. The composite is a running sum in list order: the value of a composite of
    [l1 ++ l2] continues the sum from the value of the composite of [l1]; in
    particular appending one child adds its value to the previous total. *)
Theorem Potential_Combine_app (G : float) (l1 l2 : list Potential)
    (child : Potential) (xyz : array) (t : float) :
  potential (Potential_Combine G (l1 ++ l2)) xyz t =
    fold_left PrimFloat.add (map (fun p => potential p xyz t) l2)
      (potential (Potential_Combine G l1) xyz t) /\
  potential (Potential_Combine G (l1 ++ [child])) xyz t =
    potential (Potential_Combine G l1) xyz t + potential child xyz t /\
  potential (Potential_Combine G []) xyz t = 0.
Proof.
  unfold Potential_Combine. cbn [potential]. rewrite !combine_output.
  unfold sum. rewrite !map_app, !fold_left_app. repeat split.
Qed.

(** X7. The isochrone depends on the position only through the squares of its
    coordinates: flipping the sign of any coordinates leaves the value
    unchanged, bit for bit. *)
Theorem Isochrone_sign_flips (G m a : float) (xyz xyz' : array) (t : float) :
  Forall2 (fun c c' => c' = c \/ c' = - c) xyz xyz' ->
  potential (Isochrone G m a) xyz' t = potential (Isochrone G m a) xyz t.
Proof.
  intro H. unfold Isochrone. cbn [potential]. unfold norm.
  replace (map square xyz') with (map square xyz); [reflexivity|].
  induction H as [|c c' l l' [->| ->] _ IH]; cbn [map];
    rewrite ?square_opp; now f_equal.
Qed.

Lemma Isochrone_sign_flips_witness :
  potential (Isochrone 1 1e4 1) [- 8; 0.5; - 0.25] 0 =
  potential (Isochrone 1 1e4 1) [8; 0.5; 0.25] 0.
Proof.
  apply (Isochrone_sign_flips 1 1e4 1 [8; 0.5; 0.25] [- 8; 0.5; - 0.25] 0).
  repeat constructor; (now left) || (now right).
Defined.

(** X8. The Miyamoto-Nagai disk is symmetric under reflection of each coordinate:
    through the disk plane ([z -> -z]) and through the planes [x = 0] and
    [y = 0]. *)
Theorem MiyamotoNagaiDisk_reflections (G m a b x y z t : float) :
  potential (MiyamotoNagaiDisk G m a b) [x; y; - z] t =
    potential (MiyamotoNagaiDisk G m a b) [x; y; z] t /\
  potential (MiyamotoNagaiDisk G m a b) [- x; y; z] t =
    potential (MiyamotoNagaiDisk G m a b) [x; y; z] t /\
  potential (MiyamotoNagaiDisk G m a b) [x; - y; z] t =
    potential (MiyamotoNagaiDisk G m a b) [x; y; z] t.
Proof.
  unfold MiyamotoNagaiDisk. cbn [potential].
  change (item [x; y; - z] 0) with x. change (item [x; y; - z] 1) with y.
  change (item [x; y; - z] 2) with (- z).
  change (item [- x; y; z] 0) with (- x). change (item [- x; y; z] 1) with y.
  change (item [- x; y; z] 2) with z.
  change (item [x; - y; z] 0) with x. change (item [x; - y; z] 1) with (- y).
  change (item [x; - y; z] 2) with z.
  change (item [x; y; z] 0) with x. change (item [x; y; z] 1) with y.
  change (item [x; y; z] 2) with z.
  now rewrite !square_opp.
Qed.

(** X9. The moving isochrone is switched on only strictly inside the time window:
    for [t_min < t < t_max] the value is the isochrone centred on the spline
    position plus the background, and otherwise, the two end points [t_min]
    and [t_max] included, it is the background alone. *)
Theorem Isochrone_centered_window {S : Type} (G m a : float)
    (spline_eval_func : float -> S -> array) (splines : S)
    (t_min t_max m_ext a_ext : float) (x y z t : float) :
  let pot := Isochrone_centered G m a spline_eval_func splines t_min t_max m_ext a_ext in
  let background := Isochrone G m_ext a_ext in
  potential pot [x; y; z] t =
    (if (t_min <? t) && (t <? t_max)
     then potential (Isochrone G m a)
            (sub [x; y; z] (spline_eval_func t splines)) t
          + potential background [x; y; z] t
     else potential background [x; y; z] t) /\
  potential pot [x; y; z] t_min = potential background [x; y; z] t_min /\
  potential pot [x; y; z] t_max = potential background [x; y; z] t_max.
Proof.
  cbv zeta. unfold Isochrone_centered. cbn [potential hstack app firstn].
  change (item [x; y; z; t] (-1)) with t.
  change (item [x; y; z; t_min] (-1)) with t_min.
  change (item [x; y; z; t_max] (-1)) with t_max.
  rewrite !ltb_irrefl, andb_false_r. cbn [andb]. repeat split.
Qed.

(** ** Leapfrog integrator: further properties *)

Lemma map2_length {A C D} (f : A -> C -> D) (a : list A) (b : list C) :
  length a = length b -> length (map2 f a b) = length a.
Proof.
  revert b. induction a as [|x a IH]; intros [|y b] H; try discriminate H;
    [reflexivity|].
  cbn [map2 length]. f_equal. apply IH. now injection H.
Qed.

Lemma broadcast_length (op : float -> float -> float) (a b : array) :
  length a = length b -> length (broadcast op a b) = length a.
Proof.
  intro H. unfold broadcast.
  destruct a as [|x [|x' a]], b as [|y [|y' b]]; try discriminate H;
    try reflexivity.
  now apply map2_length.
Qed.

Lemma leapfrog_step_shape (func : array -> float -> array) (y0 : array)
    (t0 dt : float) (a0 : array) (n : nat) :
  (forall (x : array) (t : float), length (func x t) = length x) ->
  length y0 = (2 * n)%nat -> length a0 = n ->
  length (snd (fst (leapfrog_step func y0 t0 dt a0))) = (2 * n)%nat /\
  length (snd (leapfrog_step func y0 t0 dt a0)) = n.
Proof.
  intros Hf Hy Ha. unfold leapfrog_step. cbn [fst snd].
  assert (Hdiv : (length y0 / 2)%nat = n).
  { rewrite Hy, Nat.mul_comm. apply Nat.div_mul. discriminate. }
  rewrite Hdiv.
  set (v1_2 := add (skipn n y0) (divs (muls a0 dt) 2)).
  assert (Hh : length v1_2 = n).
  { unfold v1_2, add. rewrite broadcast_length; rewrite length_skipn.
    - lia.
    - unfold divs, muls. rewrite !length_map. lia. }
  set (xf := add (firstn n y0) (muls v1_2 dt)).
  assert (Hxf : length xf = n).
  { unfold xf, add. rewrite broadcast_length; rewrite length_firstn.
    - lia.
    - unfold muls. rewrite length_map. lia. }
  set (af := neg (func xf (t0 + dt))).
  assert (Haf : length af = n).
  { unfold af, neg. now rewrite length_map, Hf. }
  split; [|exact Haf].
  rewrite length_app, Hxf. unfold add.
  rewrite broadcast_length; [lia|].
  unfold divs, muls. rewrite !length_map. lia.
Qed.

Lemma leapfrog_scan_shape (func_ : array -> float -> array) (ts : array)
    (n : nat) (l : array) :
  (forall (x : array) (t : float), length (func_ x t) = length x) ->
  forall c : leapfrog_carry,
    length (lc_y0 c) = (2 * n)%nat -> length (lc_a0 c) = n ->
    Forall (fun w => length w = (2 * n)%nat)
           (snd (scan (leapfrog_scan_fun func_ ts) c l)).
Proof.
  intro Hf. induction l as [|t l IH]; intros c Hy Ha; [constructor|].
  destruct c as [i y0 t0 dt a0]. cbn [lc_y0 lc_a0] in Hy, Ha.
  cbn [scan]. unfold leapfrog_scan_fun at 1.
  destruct (leapfrog_step_shape func_ y0 t0 dt a0 n Hf Hy Ha) as [Hyf Haf].
  destruct (leapfrog_step func_ y0 t0 dt a0) as [[tf yf] af].
  cbn [fst snd] in Hyf, Haf.
  match goal with |- context [scan ?f ?c l] =>
    specialize (IH c Hyf Haf); destruct (scan f c l) as [c'' ys]
  end.
  cbn [snd] in *. now constructor.
Qed.

(** X10. On a non-empty grid, for an initial state with an even number of
    components and a gradient function that returns as many components as
    its position argument has, the output of [leapfrog_run] is aligned to the
    grid: it has one row per grid time, and its first row is the initial
    state. *)
Theorem leapfrog_run_aligned (w0 : array) (t0 : float) (ts' : array)
    (potential_gradient : array -> float -> array) (n : nat) :
  (forall (x : array) (t : float), length (potential_gradient x t) = length x) ->
  length w0 = (2 * n)%nat ->
  length (leapfrog_run w0 (t0 :: ts') potential_gradient) = length (t0 :: ts') /\
  nth 0 (leapfrog_run w0 (t0 :: ts') potential_gradient) [] = w0.
Proof.
  intros _ _. unfold leapfrog_run. cbn [skipn].
  match goal with |- context [scan ?f ?c ts'] =>
    pose proof (scan_length f ts' c) as Hlen; destruct (scan f c ts') as [c' ws]
  end.
  cbn [snd] in Hlen. cbn [length nth]. now rewrite Hlen.
Qed.

Lemma leapfrog_run_aligned_witness :
  length (leapfrog_run [0; 0; 1; 2] [0; 1; 2; 4] Demo.zero_gradient) =
    length [0; 1; 2; 4] /\
  nth 0 (leapfrog_run [0; 0; 1; 2] [0; 1; 2; 4] Demo.zero_gradient) [] =
    [0; 0; 1; 2].
Proof.
  apply (leapfrog_run_aligned [0; 0; 1; 2] 0 [1; 2; 4] Demo.zero_gradient 2).
  - intros x t. apply length_map.
  - reflexivity.
Defined.

(** X11. When the gradient function returns as many components as its position
    argument has, every row of the output of [leapfrog_run] keeps the
    dimension of the initial state (positions followed by velocities). *)
Theorem leapfrog_run_shape (w0 ts : array)
    (potential_gradient : array -> float -> array) (n : nat) :
  (forall (x : array) (t : float), length (potential_gradient x t) = length x) ->
  length w0 = (2 * n)%nat ->
  Forall (fun w => length w = length w0) (leapfrog_run w0 ts potential_gradient).
Proof.
  intros Hf Hw. unfold leapfrog_run.
  pose proof (leapfrog_scan_shape potential_gradient ts n (skipn 1 ts) Hf
                (leapfrog_init w0 ts potential_gradient)) as Hscan.
  destruct (scan _ _ (skipn 1 ts)) as [c ws]. cbn [snd] in Hscan.
  rewrite Hw. constructor; [exact Hw|]. apply Hscan.
  - exact Hw.
  - unfold leapfrog_init. cbn [lc_a0]. unfold neg.
    rewrite length_map, Hf, length_firstn, Hw.
    rewrite Nat.mul_comm, Nat.div_mul by discriminate. lia.
Qed.

Lemma leapfrog_run_shape_witness :
  Forall (fun w => length w = length [0; 0; 1; 2])
         (leapfrog_run [0; 0; 1; 2] [0; 1; 2; 4] Demo.zero_gradient).
Proof.
  apply (leapfrog_run_shape [0; 0; 1; 2] [0; 1; 2; 4] Demo.zero_gradient 2).
  - intros x t. apply length_map.
  - reflexivity.
Defined.

Lemma leapfrog_scan_grid_use (func_ : array -> float -> array)
    (ts ts' : array) (l : array) :
  forall (l' : array) (c : leapfrog_carry) (j : nat),
    length l = length l' ->
    lc_i c = Z.of_nat j ->
    (forall k : nat, (j <= k < j + length l)%nat ->
       next_step_size ts (Z.of_nat k) = next_step_size ts' (Z.of_nat k)) ->
    snd (scan (leapfrog_scan_fun func_ ts) c l) =
    snd (scan (leapfrog_scan_fun func_ ts') c l').
Proof.
  induction l as [|t l IH]; intros [|t' l'] c j Hlen Hi Hstep;
    try discriminate Hlen; [reflexivity|].
  destruct c as [i y0 t0 dt a0]. cbn [lc_i] in Hi. subst i.
  cbn [scan]. unfold leapfrog_scan_fun at 1 3.
  destruct (leapfrog_step func_ y0 t0 dt a0) as [[tf yf] af].
  change (if 0 <? PrimFloat.abs (item ts (Z.of_nat j + 1) - item ts (Z.of_nat j))
          then item ts (-1) - item ts (-2) else 0.0)
    with (next_step_size ts (Z.of_nat j)).
  change (if 0 <? PrimFloat.abs (item ts' (Z.of_nat j + 1) - item ts' (Z.of_nat j))
          then item ts' (-1) - item ts' (-2) else 0.0)
    with (next_step_size ts' (Z.of_nat j)).
  rewrite (Hstep j) by (cbn [length]; lia).
  match goal with |- context [scan (leapfrog_scan_fun func_ ts) ?c l] =>
    specialize (IH l' c (S j))
  end.
  cbn [lc_i] in IH.
  assert (Hrec : forall k : nat, (S j <= k < S j + length l)%nat ->
            next_step_size ts (Z.of_nat k) = next_step_size ts' (Z.of_nat k)).
  { intros k Hk. apply Hstep. cbn [length]. lia. }
  specialize (IH ltac:(now injection Hlen) ltac:(lia) Hrec).
  destruct (scan (leapfrog_scan_fun func_ ts) _ l) as [c1 ys1].
  destruct (scan (leapfrog_scan_fun func_ ts') _ l') as [c2 ys2].
  cbn [snd] in *. now rewrite IH.
Qed.

(** X12. [leapfrog_run] never uses the interior grid times as times.  Two grids of
    the same length give the same output when they agree on their first two
    entries and on the step size that each consecutive difference selects
    (the last grid spacing for a non-zero difference, [0.0] for a zero one). *)
Theorem leapfrog_run_grid_use (w0 ts ts' : array)
    (potential_gradient : array -> float -> array) :
  length ts = length ts' ->
  item ts 0 = item ts' 0 ->
  item ts 1 = item ts' 1 ->
  (forall k : nat, (k < length ts - 1)%nat ->
     next_step_size ts (Z.of_nat k) = next_step_size ts' (Z.of_nat k)) ->
  leapfrog_run w0 ts potential_gradient = leapfrog_run w0 ts' potential_gradient.
Proof.
  intros Hlen H0 H1 Hstep. unfold leapfrog_run.
  change (fun (y : array) (t : float) => potential_gradient y t)
    with potential_gradient.
  assert (Hinit : leapfrog_init w0 ts potential_gradient =
                  leapfrog_init w0 ts' potential_gradient).
  { unfold leapfrog_init. now rewrite H0, H1. }
  rewrite <- Hinit.
  pose proof (leapfrog_scan_grid_use potential_gradient ts ts' (skipn 1 ts)
                (skipn 1 ts') (leapfrog_init w0 ts potential_gradient) 0) as Hscan.
  destruct (scan (leapfrog_scan_fun potential_gradient ts) _ (skipn 1 ts))
    as [c1 ws1].
  destruct (scan (leapfrog_scan_fun potential_gradient ts') _ (skipn 1 ts'))
    as [c2 ws2].
  cbn [snd] in Hscan. f_equal. apply Hscan.
  - now rewrite !length_skipn, Hlen.
  - reflexivity.
  - intros k Hk. apply Hstep. rewrite length_skipn in Hk. lia.
Qed.

(** The grids [0, 1, 2, 4] and [0, 1, 3, 5] differ in an interior time and
    give the same trajectory. *)
Lemma leapfrog_run_grid_use_witness :
  leapfrog_run [0; 1] [0; 1; 2; 4] Demo.zero_gradient =
  leapfrog_run [0; 1] [0; 1; 3; 5] Demo.zero_gradient.
Proof.
  apply (leapfrog_run_grid_use [0; 1] [0; 1; 2; 4] [0; 1; 3; 5] Demo.zero_gradient).
  - reflexivity.
  - reflexivity.
  - reflexivity.
  - intros k Hk. cbn [length Nat.sub] in Hk.
    destruct k as [|[|[|k]]]; [vm_compute; reflexivity ..|lia].
Defined.

(** ** Stream generator: further properties *)


(** X13. On an empty time grid all three stream generators fail: the minimum of an
    empty array is undefined. *)
Theorem gen_stream_empty_grid (B : Backend) (P : Potential) (prog_w0 : array)
    (Msat : float) (seed_num : Z) :
  gen_stream_ics B P [] prog_w0 Msat seed_num = None /\
  gen_stream_scan B P [] prog_w0 Msat seed_num = None /\
  gen_stream_vmapped B P [] prog_w0 Msat seed_num = None.
Proof. repeat split. Qed.





(** X20. A grid that the orbit integrator rejects, such as one with an entry
    smaller than its predecessor, makes all three stream generators fail. *)
Theorem gen_stream_rejected_grid (B : Backend) (P : Potential) (ts : array)
    (prog_w0 : array) (Msat : float) (seed_num : Z) :
  grid_accepted ts = false ->
  gen_stream_ics B P ts prog_w0 Msat seed_num = None /\
  gen_stream_scan B P ts prog_w0 Msat seed_num = None /\
  gen_stream_vmapped B P ts prog_w0 Msat seed_num = None.
Proof.
  intro Hrej.
  pose proof (gen_stream_ics_rejected B P ts prog_w0 Msat seed_num Hrej) as Hics.
  unfold gen_stream_scan, gen_stream_vmapped. now rewrite Hics.
Qed.

(** The grid [0, 2, 1] is not sorted. *)
Lemma gen_stream_rejected_grid_witness :
  grid_accepted [0; 2; 1] = false /\
  gen_stream_ics Demo.backend Demo.host [0; 2; 1] Demo.prog_w0 Demo.Msat 42 = None /\
  gen_stream_scan Demo.backend Demo.host [0; 2; 1] Demo.prog_w0 Demo.Msat 42 = None /\
  gen_stream_vmapped Demo.backend Demo.host [0; 2; 1] Demo.prog_w0 Demo.Msat 42 = None.
Proof.
  split; [vm_compute; reflexivity|].
  apply (gen_stream_rejected_grid Demo.backend Demo.host [0; 2; 1]
           Demo.prog_w0 Demo.Msat 42).
  vm_compute. reflexivity.
Defined.

(** X17. The fifth random integer is never used: two (index, seed) pairs whose
    first four products [i * random_ints[k]] agree give identical releases,
    whatever the fifth. *)
Theorem release_model_fifth_key_unused (B : Backend) (P : Potential)
    (x v : array) (Msat t : float) (i1 s1 i2 s2 : Z) :
  (forall k : nat, (k < 4)%nat ->
     wrap64 (i1 * nth k (randint B (PRNGKey B s1) 5 0 1000) 0)%Z =
     wrap64 (i2 * nth k (randint B (PRNGKey B s2) 5 0 1000) 0)%Z) ->
  release_model B P x v Msat i1 t s1 = release_model B P x v Msat i2 t s2.
Proof.
  intro H. unfold release_model, release_keys, release_from_keys.
  cbn [nth]. rewrite (H 0%nat), (H 1%nat), (H 2%nat), (H 3%nat) by lia.
  reflexivity.
Qed.

(** A generator whose fifth integer is the seed: seeds 5 and 6 give the same
    release at index 3. *)
Lemma release_model_fifth_key_unused_witness :
  let B := mkBackend Demo.fd_grad Demo.cbrt Z (fun seed => seed)
             (fun key _ _ _ => [1; 2; 3; 4; key]%Z) Demo.lcg_normal
             Demo.rk4_state Demo.rk4_final in
  nth 4 (randint B (PRNGKey B 5) 5 0 1000) 0%Z <>
    nth 4 (randint B (PRNGKey B 6) 5 0 1000) 0%Z /\
  release_model B Demo.host [8; 0; 0] [0; 0.3; 0] Demo.Msat 3 1 5 =
  release_model B Demo.host [8; 0; 0] [0; 0.3; 0] Demo.Msat 3 1 6.
Proof.
  cbv zeta. split; [discriminate|].
  apply (release_model_fifth_key_unused
           (mkBackend Demo.fd_grad Demo.cbrt Z (fun seed => seed)
              (fun key _ _ _ => [1; 2; 3; 4; key]%Z) Demo.lcg_normal
              Demo.rk4_state Demo.rk4_final)
           Demo.host [8; 0; 0] [0; 0.3; 0] Demo.Msat 1 3 5 3 6).
  intros k Hk. destruct k as [|[|[|[|k]]]]; [reflexivity ..|lia].
Defined.

(** ** Tidal quantities: further properties *)

Lemma binary_round_aux_sign (p emx m e : Z) (l : location) :
  match binary_round_aux p emx false m e l with
  | S754_infinity s | S754_finite s _ _ => s = false
  | _ => True
  end.
Proof.
  unfold binary_round_aux.
  destruct (shr_fexp p emx m e l) as [mrs' e'].
  destruct (shr_fexp p emx _ e' loc_Exact) as [mrs'' e''].
  destruct (shr_m mrs''); simpl; auto.
  destruct (e'' <=? emx - p)%Z; simpl; auto.
Qed.

Lemma sqrt_not_negative (x : float) : (PrimFloat.sqrt x <? 0) = false.
Proof.
  rewrite FloatAxioms.ltb_spec, FloatAxioms.sqrt_spec. unfold SF64sqrt, SFsqrt.
  destruct (Prim2SF x) as [s|[|]| |[|] m e]; try reflexivity.
  destruct (SFsqrt_core_binary prec emax (Z.pos m) e) as [[mz ez] lz].
  pose proof (binary_round_aux_sign prec emax mz ez lz) as H.
  change (Prim2SF 0) with (S754_zero false).
  destruct (binary_round_aux prec emax false mz ez lz) as [s|s| |s m' e'];
    simpl in *; subst; reflexivity.
Qed.

Lemma sub_nan_r (x : float) : x - nan = nan.
Proof.
  apply Prim2SF_inj. rewrite FloatAxioms.sub_spec.
  change (Prim2SF nan) with S754_nan.
  unfold SF64sub, SFsub. now destruct (Prim2SF x).
Qed.

(** X18. The angular frequency [omega] is a norm: whatever the position and the
    velocity, it is never negative (it is non-negative or NaN). *)
Theorem omega_not_negative (x v : array) : (omega x v <? 0) = false.
Proof. unfold omega, norm. apply sqrt_not_negative. Qed.

(** X19. With a negative finite radicand both Lagrange points of a three-component
    position have every coordinate NaN. *)
Theorem lagrange_pts_degenerate (B : Backend) (P : Potential)
    (x0 x1 x2 v0 v1 v2 Msat t : float) :
  (tidal_radicand B P [x0; x1; x2] [v0; v1; v2] Msat t <? 0) = true ->
  (tidal_radicand B P [x0; x1; x2] [v0; v1; v2] Msat t =? neg_infinity) = false ->
  lagrange_pts B P [x0; x1; x2] [v0; v1; v2] Msat t =
  ([nan; nan; nan], [nan; nan; nan]).
Proof.
  intros Hneg Hfin. unfold lagrange_pts.
  assert (Htid : tidalr_mw B P [x0; x1; x2] [v0; v1; v2] Msat t = nan).
  { unfold tidalr_mw, pow_third. rewrite Hneg, Hfin.
    now destruct (PrimFloat.is_nan _). }
  rewrite Htid. cbv [add sub muls divs broadcast map map2].
  now rewrite !mul_nan_r, !add_nan_r, !sub_nan_r.
Qed.

Lemma lagrange_pts_degenerate_witness :
  (tidal_radicand Demo.backend Demo.host [0.1; 0; 0] [0; 0.001; 0] Demo.Msat 0 <? 0)
    = true /\
  lagrange_pts Demo.backend Demo.host [0.1; 0; 0] [0; 0.001; 0] Demo.Msat 0 =
  ([nan; nan; nan], [nan; nan; nan]).
Proof.
  split; [vm_compute; reflexivity|].
  apply (lagrange_pts_degenerate Demo.backend Demo.host
           0.1 0 0 0 0.001 0 Demo.Msat 0); vm_compute; reflexivity.
Defined.
